(** * Shallow embedding of the userspace L7 ingestion core
      ([ebpf/l7_req/main.go]) and proofs of its specified behaviour.

    Conventions of the embedding:
    - Go unsigned integers ([uint8], [uint16], [uint32], [uint64]) are [N];
      a narrowing conversion [uintK(x)] is [N.modulo x (2^K)].
    - Go strings and byte slices are byte sequences: a string is a
      Stdlib [string] (a list of 8-bit characters), a byte slice a
      [list byte]; [string(b)] is [string_of_list_byte b].
    - A host log entry (zerolog) is a level, its typed fields in the order
      they are added, and its message. *)

From Stdlib Require Import NArith ZArith List Bool Lia.
From Stdlib Require Import Strings.String Strings.Byte DecimalString.
Import ListNotations.

Open Scope string_scope.

(* ------------------------------------------------------------------ *)
(** ** Enumerations (lines 16-176) *)

Module Enums.

(** Kernel-side discriminants, [iota] blocks of main.go. *)
Definition BPF_L7_PROTOCOL_UNKNOWN : N := 0.
Definition BPF_L7_PROTOCOL_HTTP : N := 1.
Definition BPF_L7_PROTOCOL_AMQP : N := 2.
Definition BPF_L7_PROTOCOL_POSTGRES : N := 3.

Definition L7_PROTOCOL_HTTP : string := "HTTP".
Definition L7_PROTOCOL_AMQP : string := "AMQP".
Definition L7_PROTOCOL_POSTGRES : string := "POSTGRES".
Definition L7_PROTOCOL_UNKNOWN : string := "UNKNOWN".

(** [func (e L7ProtocolConversion) String() string]: a Go [switch] tests
    its cases in order and falls to [default]. *)
Definition L7ProtocolConversion_String (e : N) : string :=
  if N.eqb e BPF_L7_PROTOCOL_HTTP then L7_PROTOCOL_HTTP
  else if N.eqb e BPF_L7_PROTOCOL_AMQP then L7_PROTOCOL_AMQP
  else if N.eqb e BPF_L7_PROTOCOL_POSTGRES then L7_PROTOCOL_POSTGRES
  else if N.eqb e BPF_L7_PROTOCOL_UNKNOWN then L7_PROTOCOL_UNKNOWN
  else "Unknown".

Definition BPF_METHOD_UNKNOWN : N := 0.
Definition BPF_METHOD_GET : N := 1.
Definition BPF_METHOD_POST : N := 2.
Definition BPF_METHOD_PUT : N := 3.
Definition BPF_METHOD_PATCH : N := 4.
Definition BPF_METHOD_DELETE : N := 5.
Definition BPF_METHOD_HEAD : N := 6.
Definition BPF_METHOD_CONNECT : N := 7.
Definition BPF_METHOD_OPTIONS : N := 8.
Definition BPF_METHOD_TRACE : N := 9.

Definition BPF_AMQP_METHOD_UNKNOWN : N := 0.
Definition BPF_AMQP_METHOD_PUBLISH : N := 1.
Definition BPF_AMQP_METHOD_DELIVER : N := 2.

Definition BPF_POSTGRES_METHOD_UNKNOWN : N := 0.
Definition BPF_POSTGRES_METHOD_STATEMENT_CLOSE_OR_CONN_TERMINATE : N := 1.
Definition BPF_POSTGRES_METHOD_SIMPLE_QUERY : N := 2.

Definition GET : string := "GET".
Definition POST : string := "POST".
Definition PUT : string := "PUT".
Definition PATCH : string := "PATCH".
Definition DELETE : string := "DELETE".
Definition HEAD : string := "HEAD".
Definition CONNECT : string := "CONNECT".
Definition OPTIONS : string := "OPTIONS".
Definition TRACE : string := "TRACE".

Definition PUBLISH : string := "PUBLISH".
Definition DELIVER : string := "DELIVER".

Definition CLOSE_OR_TERMINATE : string := "CLOSE_OR_TERMINATE".
Definition SIMPLE_QUERY : string := "SIMPLE_QUERY".

(** [func (e HTTPMethodConversion) String() string] *)
Definition HTTPMethodConversion_String (e : N) : string :=
  if N.eqb e BPF_METHOD_GET then GET
  else if N.eqb e BPF_METHOD_POST then POST
  else if N.eqb e BPF_METHOD_PUT then PUT
  else if N.eqb e BPF_METHOD_PATCH then PATCH
  else if N.eqb e BPF_METHOD_DELETE then DELETE
  else if N.eqb e BPF_METHOD_HEAD then HEAD
  else if N.eqb e BPF_METHOD_CONNECT then CONNECT
  else if N.eqb e BPF_METHOD_OPTIONS then OPTIONS
  else if N.eqb e BPF_METHOD_TRACE then TRACE
  else "Unknown".

(** [func (e RabbitMQMethodConversion) String() string] *)
Definition RabbitMQMethodConversion_String (e : N) : string :=
  if N.eqb e BPF_AMQP_METHOD_PUBLISH then PUBLISH
  else if N.eqb e BPF_AMQP_METHOD_DELIVER then DELIVER
  else "Unknown".

(** [func (e PostgresMethodConversion) String() string] *)
Definition PostgresMethodConversion_String (e : N) : string :=
  if N.eqb e BPF_POSTGRES_METHOD_STATEMENT_CLOSE_OR_CONN_TERMINATE
  then CLOSE_OR_TERMINATE
  else if N.eqb e BPF_POSTGRES_METHOD_SIMPLE_QUERY then SIMPLE_QUERY
  else "Unknown".

End Enums.

Import Enums.

(* ------------------------------------------------------------------ *)
(** ** Records *)

(** Modelled from the spec: the generated [bpfL7Event] struct (bpf2go
    output of [l7.c], not among the sources) with the fields of the raw
    L7 event of §3.1, named as main.go reads them. *)
Record bpfL7Event := mk_bpfL7Event {
  Fd : N;                    (* uint64 *)
  WriteTimeNs : N;           (* uint64 *)
  Pid : N;                   (* uint32 *)
  Status : N;                (* uint32 *)
  Duration : N;              (* uint64 *)
  Protocol : N;              (* uint32 *)
  Method : N;                (* uint32 *)
  Payload : list byte;       (* [512]uint8 *)
  PayloadSize : N;           (* uint32 *)
  PayloadReadComplete : N;   (* uint8 *)
  Failed : N;                (* uint8 *)
  IsTls : N                  (* uint8 *)
}.

(** [type L7Event struct] of main.go (lines 184-197). *)
Record L7Event := mk_L7Event {
  ev_Fd : N;
  ev_Pid : N;
  ev_Status : N;
  ev_Duration : N;
  ev_Protocol : string;
  ev_Tls : bool;
  ev_Method : string;
  ev_Payload : list byte;
  ev_PayloadSize : N;
  ev_PayloadReadComplete : bool;
  ev_Failed : bool;
  ev_WriteTimeNs : N
}.

(** [func uint8ToBool(num uint8) bool] *)
Definition uint8ToBool (num : N) : bool := negb (N.eqb num 0).

(** Host log entries, as built by the zerolog calls of main.go. *)
Inductive Level := LDebug | LInfo | LWarn | LError.

Inductive Field :=
| FStr (key : string) (v : string)      (* .Str(key, v) *)
| FUint16 (key : string) (v : N)        (* .Uint16(key, v) *)
| FUint32 (key : string) (v : N)        (* .Uint32(key, v) *)
| FUint64 (key : string) (v : N).       (* .Uint64(key, v) *)

Record HostLog := mk_HostLog {
  hl_level : Level;
  hl_fields : list Field;
  hl_msg : string
}.

(* ------------------------------------------------------------------ *)
(** ** L7 event pump: the per-record goroutine (lines 454-488) *)

(** The method switch on the decoded protocol string (lines 457-467). *)
Definition decode_method (protocol : string) (m : N) : string :=
  if String.eqb protocol L7_PROTOCOL_HTTP then HTTPMethodConversion_String m
  else if String.eqb protocol L7_PROTOCOL_AMQP then RabbitMQMethodConversion_String m
  else if String.eqb protocol L7_PROTOCOL_POSTGRES then PostgresMethodConversion_String m
  else "Unknown".

(** The debug log of a TLS record (lines 469-472); [uint16(l7Event.Fd)]
    keeps the low 16 bits, [string(l7Event.Payload[:])] the whole array. *)
Definition tls_debug_log (r : bpfL7Event) (protocol method : string) : HostLog :=
  mk_HostLog LDebug
    [ FUint16 "fd" (N.modulo (Fd r) (2 ^ 16));
      FUint32 "pid" (Pid r);
      FStr "payload" (string_of_list_byte (Payload r));
      FStr "method" method;
      FStr "protocol" protocol;
      FUint32 "status" (Status r) ]
    "l7tls event".

(** One run of the per-record goroutine: the host logs it writes and the
    event it sends on [ch]. *)
Definition process_l7_event (r : bpfL7Event) : list HostLog * L7Event :=
  let protocol := L7ProtocolConversion_String (Protocol r) in
  let method := decode_method protocol (Method r) in
  let logs := if uint8ToBool (IsTls r) then [tls_debug_log r protocol method] else [] in
  (logs,
   mk_L7Event (Fd r) (Pid r) (Status r) (Duration r) protocol
     (uint8ToBool (IsTls r)) method (Payload r) (PayloadSize r)
     (uint8ToBool (PayloadReadComplete r)) (uint8ToBool (Failed r))
     (WriteTimeNs r)).

Definition decode_l7 (r : bpfL7Event) : L7Event := snd (process_l7_event r).

(* ------------------------------------------------------------------ *)
(** ** Byte-slice helpers of the Go standard library *)

Module GoBytes.

(** [p] is a prefix of [s]. *)
Fixpoint is_prefix (p s : list byte) : bool :=
  match p, s with
  | [], _ => true
  | x :: p', y :: s' => Byte.eqb x y && is_prefix p' s'
  | _ :: _, [] => false
  end.

(** [bytes.Index(s, sep)]: the first position of [sep] in [s]; [None]
    stands for Go's [-1]. *)
Fixpoint Index (s sep : list byte) : option nat :=
  if is_prefix sep s then Some 0
  else match s with
       | [] => None
       | _ :: s' => option_map S (Index s' sep)
       end.

(** The loop of [genSplit]: at most [k] cuts, each at the first [sep]
    left in [s]; the remainder is the last part. *)
Fixpoint split_loop (k : nat) (s sep : list byte) : list (list byte) :=
  match k with
  | O => [s]
  | S k' =>
      match Index s sep with
      | None => [s]
      | Some m => firstn m s :: split_loop k' (skipn (m + List.length sep) s) sep
      end
  end.

(** [bytes.SplitN(s, sep, n)] for [n >= 0] and a non-empty [sep], the
    path main.go takes (it calls it with [n = 2] and [n = 3] and the
    constant separators [" -- "] and ["|"]): [n = 0] gives [nil];
    otherwise [n] is capped at [len(s)+1] and [n-1] cuts are tried. *)
Definition SplitN (s sep : list byte) (n : nat) : list (list byte) :=
  match n with
  | O => []
  | S _ => split_loop (Nat.min n (List.length s + 1) - 1) s sep
  end.

End GoBytes.

Import GoBytes.

(* ------------------------------------------------------------------ *)
(** ** Log pump (lines 328-433) *)

(** Modelled from the spec: the generated [bpfLogMessage] struct (bpf2go
    output, not among the sources), the raw log message of §3.1. *)
Record bpfLogMessage := mk_bpfLogMessage {
  lm_Level : N;              (* level *)
  lm_Pid : N;                (* uint32 *)
  FuncName : list byte;      (* [100]uint8 *)
  LogMsg : list byte;        (* fixed-size byte array *)
  Arg1 : N;
  Arg2 : N;
  Arg3 : N
}.

(** [func findEndIndex(b [100]uint8) int] *)
Fixpoint findEndIndex (b : list byte) : nat :=
  match b with
  | [] => 0
  | v :: b' => if Byte.eqb v x00 then 0 else S (findEndIndex b')
  end.

Definition delim : list byte := list_byte_of_string " -- ".
Definition bar : list byte := list_byte_of_string "|".

(** The [args] slice of [read]: three (argName, argValue) pairs. *)
Definition Args := list (string * N).

Definition args_init : Args := [("", 0%N); ("", 0%N); ("", 0%N)].

Definition warnf (prefix : string) (input : list byte) : HostLog :=
  mk_HostLog LWarn [] (prefix ++ string_of_list_byte input).

(** The closure [parseLogMessage] (lines 372-397): the host logs it
    writes, its result ([None] for [nil]) and the [args] it leaves. *)
Definition parseLogMessage (input : list byte) (logMsg : bpfLogMessage) (args : Args)
  : list HostLog * option (list byte) * Args :=
  let parts := SplitN input delim 2 in
  if negb (Nat.eqb (List.length parts) 2) then
    ([warnf "invalid ebpf log message: " input], None, args)
  else
    let parsedArgs := SplitN (nth 1 parts []) bar 3 in
    if negb (Nat.eqb (List.length parsedArgs) 3) then
      ([warnf "invalid ebpf log message not 3 args: " input], None, args)
    else
      ([], Some (nth 0 parts []),
       [(string_of_list_byte (nth 0 parsedArgs []), Arg1 logMsg);
        (string_of_list_byte (nth 1 parsedArgs []), Arg2 logMsg);
        (string_of_list_byte (nth 2 parsedArgs []), Arg3 logMsg)]).

(** The structured entry of one [case] of the level switch. *)
Definition ebpf_log (lvl : Level) (funcName : list byte) (logMsg : bpfLogMessage)
    (args : Args) (logMessage : list byte) : HostLog :=
  mk_HostLog lvl
    ([FStr "func" (string_of_list_byte funcName); FUint32 "pid" (lm_Pid logMsg)]
     ++ map (fun a => FUint64 (fst a) (snd a)) args
     ++ [FStr "log-msg" (string_of_list_byte logMessage)])%list
    "ebpf-log".

(** [switch logMsg.Level] (lines 406-423): no [default]. *)
Definition level_of (l : N) : option Level :=
  if N.eqb l 0 then Some LDebug
  else if N.eqb l 1 then Some LInfo
  else if N.eqb l 2 then Some LWarn
  else if N.eqb l 3 then Some LError
  else None.

(** Lines 346-423: the host logs written for one non-empty sample. *)
Definition handle_log_message (logMsg : bpfLogMessage) : list HostLog :=
  let funcEnd := findEndIndex (FuncName logMsg) in
  let msgEnd := findEndIndex (LogMsg logMsg) in
  let logMessage := firstn msgEnd (LogMsg logMsg) in
  let funcName := firstn funcEnd (FuncName logMsg) in
  let '(plogs, res, args) := parseLogMessage logMessage logMsg args_init in
  match res with
  | None => (plogs ++ [warnf "invalid ebpf log message: " (LogMsg logMsg)])%list
  | Some body =>
      (plogs ++
       match level_of (lm_Level logMsg) with
       | Some lvl => [ebpf_log lvl funcName logMsg args body]
       | None => []
       end)%list
  end.

(** A record returned by [logs.Read()]; [RawSample = None] is a nil or
    empty sample, [ReadErr] the error returned with it. *)
Record LogRecord := mk_LogRecord {
  ReadErr : option string;
  LostSamples : N;
  RawSample : option bpfLogMessage
}.

Definition N_to_decimal (n : N) : string :=
  NilZero.string_of_uint (N.to_uint n).

(** The closure [read] of the log pump (lines 331-424). *)
Definition log_read (record : LogRecord) : list HostLog :=
  ((match ReadErr record with
   | Some e => [mk_HostLog LWarn [FStr "error" e] "error reading from perf array"]
   | None => []
   end)
  ++ (if N.eqb (LostSamples record) 0 then []
      else [mk_HostLog LDebug []
              ("lost #" ++ N_to_decimal (LostSamples record) ++
               " samples due to ring buffer's full")])
  ++ match RawSample record with
     | None => [mk_HostLog LDebug [] "read empty record from perf array"]
     | Some m => handle_log_message m
     end)%list.

(* ------------------------------------------------------------------ *)
(** ** Startup of [DeployAndWait] (lines 220-323) *)

Module Lifecycle.

(** The handles [DeployAndWait] acquires and closes. *)
Inductive Resource :=
| Objects                   (* L7BpfProgsAndMaps, loaded by LoadBpfObjects *)
| TracepointLink (name : string)
| PerfReader (name : string).

(** Observable effects on the handles. *)
Inductive Action :=
| Acquire (r : Resource)
| Release (r : Resource)
| ProcessExit (code : nat).

(** The acquisitions of lines 225-323, in program order. *)
Definition tracepoints : list string :=
  ["sys_enter_read"; "sys_enter_write"; "sys_exit_read"; "sys_enter_sendto";
   "sys_enter_recvfrom"; "sys_exit_recvfrom"; "sys_exit_sendto"; "sys_exit_write"].

Definition startup_steps : list Resource :=
  (map TracepointLink tracepoints ++ [PerfReader "l7Events"; PerfReader "logs"])%list.

(** [Exited]: the process stopped in the middle of the startup;
    [Started pending]: every acquisition succeeded and [DeployAndWait]
    went on to its wait, with the deferred closes [pending] (latest
    first). *)
Inductive Outcome := Exited | Started (pending : list Resource).

(** Each step: [x, err := acquire(...)]; on error
    [log.Logger.Fatal()...Msg(...)], which (zerolog) ends with
    [os.Exit(1)]: the process stops and no deferred call runs; on
    success [defer x.Close()] pushes the close on the defer stack
    [defers] (latest first). [ok r] says whether acquiring [r]
    succeeds. *)
Fixpoint run_steps (ok : Resource -> bool) (steps : list Resource)
    (defers : list Resource) : Outcome * list Action :=
  match steps with
  | [] =>
      (* end of the startup: the wait on <-ctx.Done() and the readDone
         handshake follow (lines 493-505); the handshake can block for
         good, so the shutdown is not modelled and nothing is released *)
      (Started defers, [])
  | r :: steps' =>
      if ok r then
        let '(o, tr) := run_steps ok steps' (r :: defers) in
        (o, Acquire r :: tr)
      else (Exited, [ProcessExit 1])
  end.

(** [DeployAndWait]: [defer L7BpfProgsAndMaps.Close()] first, then the
    steps. *)
Definition DeployAndWait (ok : Resource -> bool) : Outcome * list Action :=
  run_steps ok startup_steps [Objects].

(** The handles released in a trace. *)
Definition released (tr : list Action) : list Resource :=
  flat_map (fun a => match a with Release r => [r] | _ => [] end) tr.

End Lifecycle.

(* ------------------------------------------------------------------ *)
(** ** The enumeration tables of §3.3, as the specification writes them *)

Module SpecTables.


Definition http_table : list (N * string) :=
  [(1%N, "GET"); (2%N, "POST"); (3%N, "PUT"); (4%N, "PATCH"); (5%N, "DELETE");
   (6%N, "HEAD"); (7%N, "CONNECT"); (8%N, "OPTIONS"); (9%N, "TRACE")].

Definition amqp_table : list (N * string) :=
  [(1%N, "PUBLISH"); (2%N, "DELIVER")].

Definition postgres_table : list (N * string) :=
  [(1%N, "CLOSE_OR_TERMINATE"); (2%N, "SIMPLE_QUERY")].

(** Index to string; an index outside the table gives ["Unknown"]. *)
Fixpoint to_string (t : list (N * string)) (n : N) : string :=
  match t with
  | [] => "Unknown"
  | (k, s) :: t' => if N.eqb k n then s else to_string t' n
  end.


End SpecTables.

(** The literal records of the end-to-end scenarios of §8. *)
Definition payload_of (s : string) : list byte :=
  (list_byte_of_string s ++ repeat x00 (512 - String.length s))%list.

Definition scenario1 : bpfL7Event :=
  mk_bpfL7Event 12 1700000000 7777 200 125000 1 1
    (payload_of "GET / HTTP/1.1") 14 1 0 0.

Definition scenario3 : bpfL7Event :=
  mk_bpfL7Event 0 0 0 0 0 9 3 (payload_of "") 0 0 0 0.

(** Parts joined back with the separator: the inverse of a split. *)
Fixpoint join (sep : list byte) (parts : list (list byte)) : list byte :=
  match parts with
  | [] => []
  | [p] => p
  | p :: ps => (p ++ sep ++ join sep ps)%list
  end.

(** [sep] occurs in [s]. *)
Definition contains (s sep : list byte) : Prop :=
  exists a b, s = (a ++ sep ++ b)%list.

(** The method strings §3.3 allows for a decoded protocol string. *)
Definition allowed_methods (protocol : string) : list string :=
  if String.eqb protocol "HTTP" then (map snd SpecTables.http_table ++ ["Unknown"])%list
  else if String.eqb protocol "AMQP" then (map snd SpecTables.amqp_table ++ ["Unknown"])%list
  else if String.eqb protocol "POSTGRES" then (map snd SpecTables.postgres_table ++ ["Unknown"])%list
  else ["Unknown"].

(** ** Statements' vocabulary *)

(** The link of [sys_enter_write] cannot be created; everything else
    succeeds. *)
Definition ok_but_sys_enter_write (r : Lifecycle.Resource) : bool :=
  match r with
  | Lifecycle.TracepointLink n => negb (String.eqb n "sys_enter_write")
  | _ => true
  end.

(** The log message accepted by [parseLogMessage]: [body], the first
    [" -- "], then two bar-free names each followed by ['|'], then the
    rest as third name. *)
Definition log_grammar (input body n1 n2 n3 : list byte) : Prop :=
  (input = body ++ delim ++ n1 ++ bar ++ n2 ++ bar ++ n3)%list /\
  (forall a b, input = (a ++ delim ++ b)%list -> List.length body <= List.length a) /\
  ~ In x7c n1 /\ ~ In x7c n2.

Definition zip_args (n1 n2 n3 : list byte) (m : bpfLogMessage) : Args :=
  [(string_of_list_byte n1, Arg1 m); (string_of_list_byte n2, Arg2 m);
   (string_of_list_byte n3, Arg3 m)].

(** The message and function name as the pump trims them. *)
Definition msg_of (m : bpfLogMessage) : list byte :=
  firstn (findEndIndex (LogMsg m)) (LogMsg m).

Definition func_of (m : bpfLogMessage) : list byte :=
  firstn (findEndIndex (FuncName m)) (FuncName m).

(** The log levels §4.5 asks for: 0 debug, 1 info, 2 warn, 3 error,
    nothing for any other level. *)
Definition spec_log_levels (l : N) : list Level :=
  match find (fun e => N.eqb (fst e) l)
               [(0%N, LDebug); (1%N, LInfo); (2%N, LWarn); (3%N, LError)] with
  | Some e => [snd e]
  | None => []
  end.

Definition log_record (level : N) (func msg : string) : bpfLogMessage :=
  mk_bpfLogMessage level 42 (list_byte_of_string func ++ [x00])%list
    (list_byte_of_string msg ++ [x00; x00])%list 7 128 3.

(** The number of structured ["ebpf-log"] entries among host logs. *)
Definition structured_entries (logs : list HostLog) : nat :=
  List.length (filter (fun h => String.eqb (hl_msg h) "ebpf-log") logs).

(* ================================================================== *)
(** * Theorems *)

(** Closes a goal that has a hypothesis [k <> k'] between closed terms
    that compute to the same value. *)
Ltac refute_const :=
  exfalso;
  match goal with
  | E : ?a <> ?b |- _ => apply E; reflexivity
  end.

Lemma to_string_notin (t : list (N * string)) (n : N) :
  ~ In n (map fst t) -> SpecTables.to_string t n = "Unknown".
Proof.
  induction t as [ | [k s] t IH]; simpl; intros H; [reflexivity | ].
  destruct (N.eqb_spec k n); [exfalso; tauto | apply IH; tauto].
Qed.

(** Reduces a chain of [N.eqb] tests on a variable: either the variable
    is one of the tested constants, or every test is false. *)
Ltac split_eqb n :=
  repeat match goal with
  | |- context [N.eqb n ?k] =>
      let E := fresh "E" in
      destruct (N.eqb_spec n k) as [E | E]; [subst n | ]
  end.

(** C1 (code bug): a protocol discriminant outside 0..3 decodes to the
    protocol string "Unknown", the literal of the [default] of
    [String()], and not to [L7_PROTOCOL_UNKNOWN] ("UNKNOWN") as the case
    for discriminant 0 and the spec have it; the method is "Unknown".
    So the decoded protocol strings are "HTTP", "AMQP", "POSTGRES",
    "UNKNOWN" and the stray "Unknown". *)
Theorem decode_protocol_out_of_range (r : bpfL7Event) :
  In (ev_Protocol (decode_l7 r)) ["HTTP"; "AMQP"; "POSTGRES"; "UNKNOWN"; "Unknown"] /\
  ((3 < Protocol r)%N ->
   ev_Protocol (decode_l7 r) = "Unknown" /\ ev_Method (decode_l7 r) = "Unknown").
Proof.
  destruct r as [fd wt pid st du p me pl ps prc fa tls]; simpl.
  unfold decode_l7, process_l7_event, L7ProtocolConversion_String; simpl.
  split_eqb p; cbn; (split; [simpl; tauto | ]).
  all: try (intros H; cbv in H; discriminate).
  intros _; split; reflexivity.
Qed.

Lemma decode_protocol_out_of_range_witness :
  (3 < Protocol scenario3)%N /\
  ev_Protocol (decode_l7 scenario3) = "Unknown" /\
  ev_Method (decode_l7 scenario3) = "Unknown".
Proof.
  assert (H : (3 < Protocol scenario3)%N) by (simpl; lia).
  split; [exact H | apply (proj2 (decode_protocol_out_of_range scenario3)); exact H].
Defined.

(** C1, scenario 3 of §8 ([protocol=9, method=3]): the decoded protocol
    is "Unknown", not the "UNKNOWN" the spec requires. *)
Lemma scenario3_protocol_not_UNKNOWN :
  ev_Protocol (decode_l7 scenario3) <> "UNKNOWN" /\
  ev_Protocol (decode_l7 scenario3) = "Unknown".
Proof. split; [discriminate | reflexivity]. Qed.

Lemma HTTPMethod_table (n : N) :
  HTTPMethodConversion_String n = SpecTables.to_string SpecTables.http_table n.
Proof.
  unfold HTTPMethodConversion_String.
  split_eqb n; try reflexivity.
  rewrite to_string_notin; [reflexivity | ].
  simpl; intros H; decompose [or False] H; subst; refute_const.
Qed.

(** C5: a record with protocol discriminant 1 decodes to the protocol
    "HTTP", the method of the HTTP table of §3.3 (["Unknown"] for 0 and
    any value outside 1..9), and every other field carried through
    unchanged (single-byte booleans as [b <> 0]); scenario 1 of §8
    decodes to the literal expected event. *)
Theorem decode_http_record (r : bpfL7Event) :
  Protocol r = 1%N ->
  decode_l7 r =
    mk_L7Event (Fd r) (Pid r) (Status r) (Duration r) "HTTP"
      (negb (N.eqb (IsTls r) 0)) (SpecTables.to_string SpecTables.http_table (Method r))
      (Payload r) (PayloadSize r)
      (negb (N.eqb (PayloadReadComplete r) 0)) (negb (N.eqb (Failed r) 0))
      (WriteTimeNs r) /\
  decode_l7 scenario1 =
    mk_L7Event 12 7777 200 125000 "HTTP" false "GET"
      (payload_of "GET / HTTP/1.1") 14 true false 1700000000.
Proof.
  intros Hp.
  split; [ | reflexivity].
  destruct r as [fd wt pid st du p me pl ps prc fa tls]; simpl in Hp; subst p.
  unfold decode_l7, process_l7_event.
  cbn -[HTTPMethodConversion_String SpecTables.to_string].
  rewrite HTTPMethod_table; reflexivity.
Qed.

Lemma decode_http_record_witness :
  Protocol scenario1 = 1%N /\
  ev_Method (decode_l7 scenario1) = "GET" /\ ev_Status (decode_l7 scenario1) = 200%N.
Proof.
  assert (H : Protocol scenario1 = 1%N) by reflexivity.
  destruct (decode_http_record scenario1 H) as [E _].
  split; [exact H | ].
  rewrite E; split; reflexivity.
Defined.

(** C6: whenever the decoded protocol string is "UNKNOWN", the raw
    discriminant was 0 and the decoded method is "Unknown", whatever the
    raw method value. *)
Theorem decode_unknown_protocol_method (r : bpfL7Event) :
  ev_Protocol (decode_l7 r) = "UNKNOWN" ->
  Protocol r = 0%N /\ ev_Method (decode_l7 r) = "Unknown".
Proof.
  destruct r as [fd wt pid st du p me pl ps prc fa tls].
  unfold decode_l7, process_l7_event, L7ProtocolConversion_String; simpl.
  split_eqb p; cbn; intros H; try discriminate.
  split; reflexivity.
Qed.

Lemma decode_unknown_protocol_method_witness :
  ev_Protocol (decode_l7 (mk_bpfL7Event 3 0 1 0 0 0 7 [] 0 0 0 0)) = "UNKNOWN" /\
  ev_Method (decode_l7 (mk_bpfL7Event 3 0 1 0 0 0 7 [] 0 0 0 0)) = "Unknown".
Proof.
  assert (H : ev_Protocol (decode_l7 (mk_bpfL7Event 3 0 1 0 0 0 7 [] 0 0 0 0)) = "UNKNOWN")
    by reflexivity.
  split; [exact H | exact (proj2 (decode_unknown_protocol_method _ H))].
Defined.


Lemma length_string_of_list_byte (l : list byte) :
  String.length (string_of_list_byte l) = List.length l.
Proof.
  unfold string_of_list_byte.
  induction l as [ | b l IH]; simpl; congruence.
Qed.

(** C9: for a TLS record ([is_tls <> 0]) the goroutine writes exactly one
    debug log, whose ["fd"] field is [uint16(fd)], the low 16 bits of the
    descriptor, while the event sent on the channel carries the full
    64-bit [fd]; the two differ as soon as [fd >= 2^16]. *)
Theorem tls_log_fd_truncated (r : bpfL7Event) :
  IsTls r <> 0%N ->
  exists h,
    fst (process_l7_event r) = [h] /\
    hl_level h = LDebug /\
    hd_error (hl_fields h) = Some (FUint16 "fd" (N.modulo (Fd r) 65536)) /\
    ev_Fd (snd (process_l7_event r)) = Fd r /\
    ((65536 <= Fd r)%N -> N.modulo (Fd r) 65536 <> Fd r).
Proof.
  intros Htls.
  unfold process_l7_event, uint8ToBool.
  destruct (N.eqb_spec (IsTls r) 0) as [E | _]; [contradiction | ].
  eexists; simpl; repeat split.
  intros Hge Heq.
  pose proof (N.mod_lt (Fd r) 65536) as Hlt.
  lia.
Qed.

Lemma tls_log_fd_truncated_witness :
  exists h,
    fst (process_l7_event (mk_bpfL7Event 70000 0 1 200 0 2 1 (payload_of "") 0 1 0 1)) = [h] /\
    hd_error (hl_fields h) = Some (FUint16 "fd" 4464).
Proof.
  assert (H : IsTls (mk_bpfL7Event 70000 0 1 200 0 2 1 (payload_of "") 0 1 0 1) <> 0%N)
    by (simpl; lia).
  destruct (tls_log_fd_truncated _ H) as (h & E & _ & F & _).
  exists h; split; [exact E | rewrite F; reflexivity].
Defined.

(** C10: for a TLS record the ["payload"] field of the debug log is the
    whole 512-byte payload array, including the bytes at positions
    [payload_size] and beyond, not its first [payload_size] bytes. *)
Theorem tls_log_payload_whole_buffer (r : bpfL7Event) :
  IsTls r <> 0%N ->
  List.length (Payload r) = 512 ->
  exists h p,
    fst (process_l7_event r) = [h] /\
    In (FStr "payload" p) (hl_fields h) /\
    list_byte_of_string p = Payload r /\
    String.length p = 512 /\
    (forall i, i < 512 -> nth_error (list_byte_of_string p) i = nth_error (Payload r) i).
Proof.
  intros Htls Hlen.
  unfold process_l7_event, uint8ToBool.
  destruct (N.eqb_spec (IsTls r) 0) as [E | _]; [contradiction | ].
  exists (tls_debug_log r (L7ProtocolConversion_String (Protocol r))
            (decode_method (L7ProtocolConversion_String (Protocol r)) (Method r))),
    (string_of_list_byte (Payload r)).
  rewrite list_byte_of_string_of_list_byte.
  repeat split; try reflexivity.
  - simpl; tauto.
  - rewrite length_string_of_list_byte; exact Hlen.
Qed.

Lemma tls_log_payload_whole_buffer_witness :
  exists h p,
    fst (process_l7_event (mk_bpfL7Event 5 0 1 200 0 1 1 (payload_of "GET /") 5 1 0 1)) = [h] /\
    In (FStr "payload" p) (hl_fields h) /\ String.length p = 512.
Proof.
  assert (H1 : IsTls (mk_bpfL7Event 5 0 1 200 0 1 1 (payload_of "GET /") 5 1 0 1) <> 0%N)
    by (simpl; lia).
  assert (H2 : List.length (Payload (mk_bpfL7Event 5 0 1 200 0 1 1 (payload_of "GET /") 5 1 0 1)) = 512)
    by reflexivity.
  destruct (tls_log_payload_whole_buffer _ H1 H2) as (h & p & E & I & _ & L & _).
  exists h, p; split; [exact E | split; [exact I | exact L]].
Defined.

Section Startup.

Import Lifecycle.

Lemma run_steps_fail (ok : Resource -> bool) (steps defers : list Resource) (k : nat) :
  k < List.length steps ->
  (forall i, i < k -> ok (nth i steps Objects) = true) ->
  ok (nth k steps Objects) = false ->
  run_steps ok steps defers =
    (Exited, (map Acquire (firstn k steps) ++ [ProcessExit 1])%list).
Proof.
  revert defers k; induction steps as [ | r steps IH]; intros defers k Hk Hpre Hfail;
    simpl in Hk; [lia | ].
  destruct k as [ | k].
  - simpl in Hfail |- *; rewrite Hfail; reflexivity.
  - simpl. rewrite (Hpre 0 ltac:(lia) : ok r = true).
    rewrite (IH (r :: defers) k); [reflexivity | lia | | exact Hfail].
    intros i Hi; apply (Hpre (S i)); lia.
Qed.

Lemma nth_startup_steps (i : nat) :
  i < 8 -> nth i startup_steps Objects = TracepointLink (nth i tracepoints "").
Proof.
  intros Hi; do 8 (destruct i as [ | i]; [reflexivity | ]); lia.
Qed.

Lemma firstn_startup_steps (k : nat) :
  k <= 8 -> firstn k startup_steps = map TracepointLink (firstn k tracepoints).
Proof.
  intros Hk; do 9 (destruct k as [ | k]; [reflexivity | ]); lia.
Qed.

(** C2 (code bug): when attaching the tracepoint of index [k] (the
    [k+1]-th of the eight, in the order of [DeployAndWait]) fails after
    the earlier ones succeeded, the process exits through the fatal
    logger right away: the trace is the [k] successful attachments
    followed by the exit, and none of the attached links nor the loaded
    objects is released by the program: the deferred closes registered
    for them do not run on [os.Exit], although the spec requires the
    release on a startup abort. *)
Theorem attach_failure_exits_without_release (ok : Resource -> bool) (k : nat) :
  k < 8 ->
  (forall i, i < k -> ok (TracepointLink (nth i tracepoints "")) = true) ->
  ok (TracepointLink (nth k tracepoints "")) = false ->
  DeployAndWait ok =
    (Exited, (map Acquire (map TracepointLink (firstn k tracepoints)) ++ [ProcessExit 1])%list) /\
  released (snd (DeployAndWait ok)) = [].
Proof.
  intros Hk Hpre Hfail.
  assert (E : DeployAndWait ok =
    (Exited, (map Acquire (map TracepointLink (firstn k tracepoints)) ++ [ProcessExit 1])%list)).
  { unfold DeployAndWait.
    rewrite (run_steps_fail ok startup_steps [Objects] k).
    - rewrite firstn_startup_steps by lia; reflexivity.
    - simpl; lia.
    - intros i Hi; rewrite nth_startup_steps by lia; apply Hpre; exact Hi.
    - rewrite nth_startup_steps by lia; exact Hfail. }
  split; [exact E | ].
  rewrite E; unfold released; simpl snd.
  rewrite flat_map_app.
  generalize (map TracepointLink (firstn k tracepoints)) as l.
  induction l as [ | t ts IH]; simpl; auto.
Qed.


Lemma attach_failure_exits_without_release_witness :
  DeployAndWait ok_but_sys_enter_write =
    (Exited, [Acquire (TracepointLink "sys_enter_read"); ProcessExit 1]).
Proof.
  refine (proj1 (attach_failure_exits_without_release ok_but_sys_enter_write 1 _ _ _)).
  - lia.
  - intros i Hi; destruct i as [ | i]; [reflexivity | lia].
  - reflexivity.
Defined.

(** C2, the leak: when the second attachment
    ([sys_enter_write]) fails, the first one ([sys_enter_read]) has been
    attached and is not released before the process exits. *)
Lemma attach_failure_leaks_first_link :
  In (Acquire (TracepointLink "sys_enter_read")) (snd (DeployAndWait ok_but_sys_enter_write)) /\
  In (ProcessExit 1) (snd (DeployAndWait ok_but_sys_enter_write)) /\
  ~ In (TracepointLink "sys_enter_read") (released (snd (DeployAndWait ok_but_sys_enter_write))).
Proof.
  vm_compute; split; [tauto | split; [tauto | intros []]].
Qed.

End Startup.

(** ** Facts about [bytes.Index] and [bytes.SplitN] *)

Section GoBytesFacts.

Open Scope list_scope.

Lemma is_prefix_app (p t : list byte) : is_prefix p (p ++ t) = true.
Proof.
  induction p as [ | x p IH]; simpl; [reflexivity | ].
  rewrite (Byte.byte_dec_lb (eq_refl x)); exact IH.
Qed.

Lemma is_prefix_true (p s : list byte) :
  is_prefix p s = true -> s = p ++ skipn (List.length p) s.
Proof.
  revert s; induction p as [ | x p IH]; intros s H; [reflexivity | ].
  destruct s as [ | y s]; simpl in H; [discriminate | ].
  apply andb_prop in H as [Hxy Hp].
  apply Byte.byte_dec_bl in Hxy; subst y.
  simpl; f_equal; apply IH; exact Hp.
Qed.

Lemma is_prefix_nil (p : list byte) : p <> [] -> is_prefix p [] = false.
Proof. destruct p; [contradiction | reflexivity]. Qed.

Lemma Index_Some (s sep : list byte) (m : nat) :
  Index s sep = Some m ->
  m + List.length sep <= List.length s /\
  s = firstn m s ++ sep ++ skipn (m + List.length sep) s /\
  (forall a b, s = a ++ sep ++ b -> m <= List.length a).
Proof.
  revert m; induction s as [ | c s IH]; intros m H; simpl in H.
  - destruct (is_prefix sep []) eqn:P; [ | discriminate].
    injection H as <-.
    apply is_prefix_true in P; simpl in P.
    destruct sep; [ | discriminate].
    repeat split; simpl; auto; lia.
  - destruct (is_prefix sep (c :: s)) eqn:P.
    + injection H as <-.
      pose proof (is_prefix_true _ _ P) as E.
      repeat split; [ | exact E | intros; lia].
      pose proof (f_equal (@List.length byte) E) as LE.
      rewrite length_app in LE; lia.
    + destruct (Index s sep) as [m' | ] eqn:I; [ | discriminate].
      simpl in H; injection H as <-.
      destruct (IH m' eq_refl) as (L & E & Min).
      repeat split.
      * simpl; lia.
      * simpl; f_equal; exact E.
      * intros a b Eab.
        destruct a as [ | x a].
        -- simpl in Eab; rewrite Eab, is_prefix_app in P; discriminate.
        -- simpl in Eab |- *; injection Eab as _ Eab.
           specialize (Min a b Eab); lia.
Qed.

Lemma Index_None (s sep : list byte) :
  Index s sep = None -> forall a b, s <> a ++ sep ++ b.
Proof.
  induction s as [ | c s IH]; intros H a b Eab; simpl in H.
  - destruct (is_prefix sep []) eqn:P; [discriminate | ].
    destruct a; simpl in Eab; [ | discriminate].
    rewrite Eab, is_prefix_app in P; discriminate.
  - destruct (is_prefix sep (c :: s)) eqn:P; [discriminate | ].
    destruct (Index s sep) eqn:I; [discriminate | ].
    destruct a as [ | x a].
    + simpl in Eab; rewrite Eab, is_prefix_app in P; discriminate.
    + simpl in Eab; injection Eab as _ Eab.
      exact (IH eq_refl a b Eab).
Qed.

(** The first occurrence of [sep] in [s] is where [Index] finds it. *)
Lemma Index_first (s sep a b : list byte) :
  s = a ++ sep ++ b ->
  (forall a' b', s = a' ++ sep ++ b' -> List.length a <= List.length a') ->
  Index s sep = Some (List.length a).
Proof.
  intros E Min.
  destruct (Index s sep) as [m | ] eqn:I.
  - destruct (Index_Some _ _ _ I) as (L & Em & Minm).
    specialize (Minm a b E).
    specialize (Min _ _ Em).
    rewrite length_firstn in Min.
    f_equal; lia.
  - exfalso; exact (Index_None _ _ I a b E).
Qed.

(** Before [Index s [x]] there is no [x]. *)
Lemma Index_single_free (s : list byte) (x : byte) (q : nat) :
  Index s [x] = Some q -> ~ In x (firstn q s).
Proof.
  intros I Hin.
  destruct (Index_Some _ _ _ I) as (L & _ & Min).
  apply in_split in Hin as (a & b & Eab).
  assert (E : s = a ++ [x] ++ (b ++ skipn q s)).
  { rewrite <- (firstn_skipn q s) at 1; rewrite Eab, <- app_assoc; reflexivity. }
  specialize (Min _ _ E).
  assert (Lq : List.length (firstn q s) = q) by (rewrite length_firstn; simpl in L; lia).
  rewrite Eab, length_app in Lq; simpl in Lq; lia.
Qed.

(** A prefix free of [x] puts the first [x] right after it. *)
Lemma free_prefix_first (n t : list byte) (x : byte) :
  ~ In x n ->
  forall a b, n ++ [x] ++ t = a ++ [x] ++ b -> List.length n <= List.length a.
Proof.
  induction n as [ | y n IH]; intros Hn a b E; simpl; [lia | ].
  destruct a as [ | z a]; simpl in E.
  - injection E as Ey _; subst y; exfalso; apply Hn; left; reflexivity.
  - injection E as _ E.
    assert (Hn' : ~ In x n) by (intro; apply Hn; right; assumption).
    specialize (IH Hn' a b E); simpl; lia.
Qed.

Lemma skipn_app_exact (a d t : list byte) :
  skipn (List.length a + List.length d) (a ++ d ++ t) = t.
Proof.
  rewrite skipn_app, skipn_all2 by lia.
  replace (List.length a + List.length d - List.length a) with (List.length d) by lia.
  rewrite skipn_app, skipn_all2 by lia.
  rewrite Nat.sub_diag; reflexivity.
Qed.

Lemma firstn_app_exact (a t : list byte) : firstn (List.length a) (a ++ t) = a.
Proof.
  rewrite firstn_app, firstn_all, Nat.sub_diag, firstn_O, app_nil_r; reflexivity.
Qed.

End GoBytesFacts.

Section SplitFacts.

Open Scope list_scope.

Lemma SplitN_2 (s sep : list byte) :
  sep <> [] ->
  SplitN s sep 2 =
    match Index s sep with
    | None => [s]
    | Some m => [firstn m s; skipn (m + List.length sep) s]
    end.
Proof.
  intros Hsep; unfold SplitN.
  destruct s as [ | c s].
  - simpl; rewrite is_prefix_nil by exact Hsep; reflexivity.
  - replace (Nat.min 2 (List.length (c :: s) + 1) - 1) with 1 by (cbn [List.length]; lia).
    cbn [split_loop]; destruct (Index (c :: s) sep); reflexivity.
Qed.

Lemma Index_nil (sep : list byte) : sep <> [] -> Index [] sep = None.
Proof. intros H; simpl; rewrite is_prefix_nil by exact H; reflexivity. Qed.

Lemma SplitN_3 (s sep : list byte) :
  sep <> [] ->
  SplitN s sep 3 =
    match Index s sep with
    | None => [s]
    | Some m =>
        let r := skipn (m + List.length sep) s in
        firstn m s ::
        match Index r sep with
        | None => [r]
        | Some m' => [firstn m' r; skipn (m' + List.length sep) r]
        end
    end.
Proof.
  intros Hsep; unfold SplitN.
  destruct s as [ | c [ | d s]].
  - simpl; rewrite is_prefix_nil by exact Hsep; reflexivity.
  - replace (Nat.min 3 (List.length [c] + 1) - 1) with 1 by (cbn [List.length]; lia).
    cbn [split_loop].
    destruct (Index [c] sep) as [m | ] eqn:I; [ | reflexivity].
    destruct (Index_Some _ _ _ I) as (L & _ & _).
    destruct sep as [ | x sep]; [contradiction | ].
    simpl in L.
    rewrite (skipn_all2 [c]) by (simpl; lia).
    rewrite Index_nil by discriminate; reflexivity.
  - replace (Nat.min 3 (List.length (c :: d :: s) + 1) - 1) with 2 by (cbn [List.length]; lia).
    cbn [split_loop].
    destruct (Index (c :: d :: s) sep); [ | reflexivity].
    destruct (Index _ sep); reflexivity.
Qed.

Lemma delim_nonempty : delim <> [].
Proof. discriminate. Qed.

Lemma bar_is : bar = [x7c].
Proof. reflexivity. Qed.

Lemma length_delim : List.length delim = 4.
Proof. reflexivity. Qed.

(** [parseLogMessage] by cases on the three [Index] searches it makes. *)
Lemma parseLogMessage_cases (input : list byte) (m : bpfLogMessage) (args : Args) :
  parseLogMessage input m args =
    match Index input delim with
    | None => ([warnf "invalid ebpf log message: " input], None, args)
    | Some p =>
        let rest := skipn (p + 4) input in
        match Index rest bar with
        | None => ([warnf "invalid ebpf log message not 3 args: " input], None, args)
        | Some q =>
            let rest2 := skipn (q + 1) rest in
            match Index rest2 bar with
            | None => ([warnf "invalid ebpf log message not 3 args: " input], None, args)
            | Some r =>
                ([], Some (firstn p input),
                 [(string_of_list_byte (firstn q rest), Arg1 m);
                  (string_of_list_byte (firstn r rest2), Arg2 m);
                  (string_of_list_byte (skipn (r + 1) rest2), Arg3 m)])
            end
        end
    end.
Proof.
  unfold parseLogMessage.
  rewrite SplitN_2 by exact delim_nonempty.
  destruct (Index input delim) as [p | ]; [ | reflexivity].
  cbn [nth List.length Nat.eqb negb].
  rewrite length_delim.
  rewrite SplitN_3 by discriminate.
  rewrite bar_is.
  destruct (Index (skipn (p + 4) input) [x7c]) as [q | ]; [ | reflexivity].
  cbn [List.length].
  destruct (Index (skipn (q + 1) (skipn (p + 4) input)) [x7c]); reflexivity.
Qed.

End SplitFacts.

Section LogGrammar.

Open Scope list_scope.


Lemma parse_sound (input : list byte) (m : bpfLogMessage) (args : Args)
    (logs : list HostLog) (body : list byte) (args' : Args) :
  parseLogMessage input m args = (logs, Some body, args') ->
  logs = [] /\
  exists n1 n2 n3, log_grammar input body n1 n2 n3 /\ args' = zip_args n1 n2 n3 m.
Proof.
  rewrite parseLogMessage_cases.
  destruct (Index input delim) as [p | ] eqn:I1; [ | discriminate].
  cbv zeta.
  destruct (Index (skipn (p + 4) input) bar) as [q | ] eqn:I2; [ | discriminate].
  destruct (Index (skipn (q + 1) (skipn (p + 4) input)) bar) as [r | ] eqn:I3;
    [ | discriminate].
  intros H; injection H as <- <- <-.
  split; [reflexivity | ].
  set (rest := skipn (p + 4) input) in *.
  set (rest2 := skipn (q + 1) rest) in *.
  rewrite bar_is in I2, I3.
  destruct (Index_Some _ _ _ I1) as (L1 & E1 & Min1).
  destruct (Index_Some _ _ _ I2) as (_ & E2 & _).
  destruct (Index_Some _ _ _ I3) as (_ & E3 & _).
  rewrite length_delim in E1.
  exists (firstn q rest), (firstn r rest2), (skipn (r + 1) rest2).
  split; [ | reflexivity].
  split; [ | split; [ | split]].
  - rewrite bar_is.
    cbn [List.length] in E2, E3.
    rewrite <- E3; unfold rest2; rewrite <- E2; unfold rest; exact E1.
  - intros a b Eab; rewrite length_firstn; specialize (Min1 a b Eab); lia.
  - exact (Index_single_free _ _ _ I2).
  - exact (Index_single_free _ _ _ I3).
Qed.

Lemma parse_complete (input body n1 n2 n3 : list byte) (m : bpfLogMessage) (args : Args) :
  log_grammar input body n1 n2 n3 ->
  parseLogMessage input m args = ([], Some body, zip_args n1 n2 n3 m).
Proof.
  intros (E & Min & F1 & F2).
  rewrite parseLogMessage_cases.
  rewrite (Index_first _ _ _ _ E Min).
  cbv zeta.
  replace (List.length body + 4) with (List.length body + List.length delim) by reflexivity.
  rewrite E, skipn_app_exact, firstn_app_exact.
  rewrite bar_is.
  rewrite (Index_first _ _ n1 (n2 ++ [x7c] ++ n3) eq_refl
             (free_prefix_first n1 _ x7c F1)).
  replace (List.length n1 + 1) with (List.length n1 + List.length [x7c]) by reflexivity.
  rewrite skipn_app_exact, firstn_app_exact.
  rewrite (Index_first _ _ n2 n3 eq_refl (free_prefix_first n2 _ x7c F2)).
  replace (List.length n2 + 1) with (List.length n2 + List.length [x7c]) by reflexivity.
  rewrite skipn_app_exact, firstn_app_exact.
  reflexivity.
Qed.

End LogGrammar.

Section LogPumpFacts.

Open Scope list_scope.


Lemma handle_accepted (m : bpfLogMessage) (body n1 n2 n3 : list byte) :
  log_grammar (msg_of m) body n1 n2 n3 ->
  handle_log_message m =
    match level_of (lm_Level m) with
    | Some lvl => [ebpf_log lvl (func_of m) m (zip_args n1 n2 n3 m) body]
    | None => []
    end.
Proof.
  intros G.
  unfold handle_log_message.
  fold (msg_of m) (func_of m).
  rewrite (parse_complete _ _ _ _ _ m args_init G).
  reflexivity.
Qed.

Lemma handle_rejected (m : bpfLogMessage) :
  (forall body n1 n2 n3, ~ log_grammar (msg_of m) body n1 n2 n3) ->
  exists prefix,
    (prefix = "invalid ebpf log message: " \/ prefix = "invalid ebpf log message not 3 args: ") /\
    handle_log_message m =
      [warnf prefix (msg_of m); warnf "invalid ebpf log message: " (LogMsg m)].
Proof.
  intros NG.
  unfold handle_log_message.
  fold (msg_of m) (func_of m).
  destruct (parseLogMessage (msg_of m) m args_init) as [[logs res] args'] eqn:P.
  destruct res as [body | ].
  - exfalso.
    destruct (parse_sound _ _ _ _ _ _ P) as (_ & n1 & n2 & n3 & G & _).
    exact (NG _ _ _ _ G).
  - rewrite parseLogMessage_cases in P.
    destruct (Index (msg_of m) delim) as [p | ]; cbv zeta in P.
    + destruct (Index (skipn (p + 4) (msg_of m)) bar) as [q | ].
      * destruct (Index (skipn (q + 1) (skipn (p + 4) (msg_of m))) bar).
        -- discriminate.
        -- injection P as <- _; eexists; split; [right; reflexivity | reflexivity].
      * injection P as <- _; eexists; split; [right; reflexivity | reflexivity].
    + injection P as <- _; eexists; split; [left; reflexivity | reflexivity].
Qed.

End LogPumpFacts.

(** C3 (corrected): the parser accepts exactly the messages
    [BODY " -- " N1 "|" N2 "|" N3] split at the first [" -- "], with
    bar-free [N1] and [N2] and an arbitrary [N3] (further bars stay in
    the third name); an accepted record yields one structured
    ["ebpf-log"] entry, carrying [N1], [N2], [N3] zipped with [arg1],
    [arg2], [arg3], when its level is 0..3 and nothing otherwise; a
    rejected one yields no structured entry. *)
Theorem log_parser_grammar (m : bpfLogMessage) :
  (forall body n1 n2 n3,
     log_grammar (msg_of m) body n1 n2 n3 ->
     handle_log_message m =
       match level_of (lm_Level m) with
       | Some lvl => [ebpf_log lvl (func_of m) m (zip_args n1 n2 n3 m) body]
       | None => []
       end) /\
  ((forall body n1 n2 n3, ~ log_grammar (msg_of m) body n1 n2 n3) ->
   Forall (fun h => hl_msg h <> "ebpf-log") (handle_log_message m)).
Proof.
  split.
  - intros body n1 n2 n3 G; exact (handle_accepted m body n1 n2 n3 G).
  - intros NG.
    destruct (handle_rejected m NG) as (prefix & Hp & ->).
    destruct Hp as [-> | ->];
      (constructor; [simpl; discriminate | constructor; [simpl; discriminate | constructor]]).
Qed.


Lemma handle_scenario4 :
  handle_log_message (log_record 1 "handle_read" "read done -- fd|len|cpu") =
    [mk_HostLog LInfo
       [FStr "func" "handle_read"; FUint32 "pid" 42; FUint64 "fd" 7;
        FUint64 "len" 128; FUint64 "cpu" 3; FStr "log-msg" "read done"]
       "ebpf-log"].
Proof. vm_compute; reflexivity. Qed.

Lemma grammar_of_parse (m : bpfLogMessage) (body : list byte) (args' : Args) :
  parseLogMessage (msg_of m) m args_init = ([], Some body, args') ->
  exists n1 n2 n3, log_grammar (msg_of m) body n1 n2 n3.
Proof.
  intros P; destruct (parse_sound _ _ _ _ _ _ P) as (_ & n1 & n2 & n3 & G & _).
  exists n1, n2, n3; exact G.
Qed.

Lemma log_parser_grammar_witness :
  exists body n1 n2 n3,
    log_grammar (msg_of (log_record 1 "handle_read" "read done -- fd|len|cpu")) body n1 n2 n3 /\
    handle_log_message (log_record 1 "handle_read" "read done -- fd|len|cpu") =
      [ebpf_log LInfo (func_of (log_record 1 "handle_read" "read done -- fd|len|cpu"))
         (log_record 1 "handle_read" "read done -- fd|len|cpu")
         (zip_args n1 n2 n3 (log_record 1 "handle_read" "read done -- fd|len|cpu")) body].
Proof.
  destruct (grammar_of_parse (log_record 1 "handle_read" "read done -- fd|len|cpu")
              (list_byte_of_string "read done") _ eq_refl) as (n1 & n2 & n3 & G).
  exists (list_byte_of_string "read done"), n1, n2, n3.
  split; [exact G | ].
  exact (proj1 (log_parser_grammar _) _ _ _ _ G).
Defined.

(** C3, as the claim states it, fails: ["x -- a|b|c|d"] has four
    bar-separated tokens, outside the claimed grammar, yet it is accepted
    and logged with the third name ["c|d"]. *)
Lemma log_parser_accepts_four_tokens :
  handle_log_message (log_record 1 "f" "x -- a|b|c|d") =
    [mk_HostLog LInfo
       [FStr "func" "f"; FUint32 "pid" 42; FUint64 "a" 7;
        FUint64 "b" 128; FUint64 "c|d" 3; FStr "log-msg" "x"]
       "ebpf-log"].
Proof. vm_compute; reflexivity. Qed.

Lemma count_bars_grammar (n1 n2 n3 : list byte) :
  2 <= count_occ Byte.byte_eq_dec (n1 ++ [x7c] ++ n2 ++ [x7c] ++ n3)%list x7c.
Proof.
  rewrite !count_occ_app; simpl.
  destruct (Byte.byte_eq_dec x7c x7c) as [_ | C]; [lia | contradiction].
Qed.

Lemma Index_bar_found (l : list byte) :
  1 <= count_occ Byte.byte_eq_dec l x7c -> exists q, Index l [x7c] = Some q.
Proof.
  intros C; destruct (Index l [x7c]) as [q | ] eqn:I; [eexists; reflexivity | ].
  exfalso.
  assert (Hin : In x7c l) by (apply (count_occ_In Byte.byte_eq_dec); lia).
  destruct (in_split _ _ Hin) as (l1 & l2 & E).
  exact (Index_None _ _ I l1 l2 E).
Qed.

Lemma count_after_bar (l : list byte) (q : nat) :
  Index l [x7c] = Some q ->
  count_occ Byte.byte_eq_dec l x7c =
    S (count_occ Byte.byte_eq_dec (skipn (q + 1) l) x7c).
Proof.
  intros I.
  destruct (Index_Some _ _ _ I) as (_ & E & _).
  pose proof (Index_single_free _ _ _ I) as F.
  cbn [List.length] in E.
  assert (C : count_occ Byte.byte_eq_dec (firstn q l ++ [x7c] ++ skipn (q + 1) l)%list x7c =
              S (count_occ Byte.byte_eq_dec (skipn (q + 1) l) x7c)).
  { rewrite !count_occ_app, (proj1 (count_occ_not_In Byte.byte_eq_dec _ _) F); simpl.
    destruct (Byte.byte_eq_dec x7c x7c) as [_ | N]; [reflexivity | contradiction]. }
  rewrite <- E in C; exact C.
Qed.

Lemma parse_accepts_bars (input : list byte) (m : bpfLogMessage) (args : Args) (p : nat) :
  Index input delim = Some p ->
  2 <= count_occ Byte.byte_eq_dec (skipn (p + 4) input) x7c ->
  exists body args', parseLogMessage input m args = ([], Some body, args').
Proof.
  intros I1 C.
  rewrite parseLogMessage_cases, I1; cbv zeta; rewrite bar_is.
  destruct (Index_bar_found (skipn (p + 4) input)) as (q & I2); [lia | ].
  rewrite I2.
  pose proof (count_after_bar _ _ I2) as C2.
  destruct (Index_bar_found (skipn (q + 1) (skipn (p + 4) input))) as (r & I3); [lia | ].
  rewrite I3.
  eexists; eexists; reflexivity.
Qed.

(** C4 (corrected): a log record whose message has no [" -- "], or fewer
    than two ['|'] (fewer than three tokens) after its first [" -- "],
    produces exactly two WARN entries, the parser's quoting the message
    and the pump's quoting the whole [log_msg] buffer, and no structured
    entry. A message with two or more ['|'] after its first [" -- "]
    (three tokens or more) is not rejected: it is in the grammar and gets
    the structured entry of its level (or nothing for a level outside
    0..3), without any warning. *)
Theorem malformed_log_two_warnings (m : bpfLogMessage) :
  ((Index (msg_of m) delim = None \/
    exists p, Index (msg_of m) delim = Some p /\
              count_occ Byte.byte_eq_dec (skipn (p + 4) (msg_of m)) x7c < 2) ->
   exists prefix,
     (prefix = "invalid ebpf log message: " \/ prefix = "invalid ebpf log message not 3 args: ") /\
     handle_log_message m =
       [warnf prefix (msg_of m); warnf "invalid ebpf log message: " (LogMsg m)]) /\
  (forall p, Index (msg_of m) delim = Some p ->
   2 <= count_occ Byte.byte_eq_dec (skipn (p + 4) (msg_of m)) x7c ->
   exists body n1 n2 n3,
     log_grammar (msg_of m) body n1 n2 n3 /\
     handle_log_message m =
       match level_of (lm_Level m) with
       | Some lvl => [ebpf_log lvl (func_of m) m (zip_args n1 n2 n3 m) body]
       | None => []
       end).
Proof.
  split.
  2:{ intros p I C.
      destruct (parse_accepts_bars (msg_of m) m args_init p I C) as (body & args' & P).
      destruct (parse_sound _ _ _ _ _ _ P) as (_ & n1 & n2 & n3 & G & _).
      exists body, n1, n2, n3; split; [exact G | exact (handle_accepted m body n1 n2 n3 G)]. }
  intros Hbad; apply handle_rejected.
  intros body n1 n2 n3 G.
  pose proof G as (E & Min & _).
  pose proof (Index_first _ _ _ _ E Min) as I.
  destruct Hbad as [N | (p & Ip & C)]; [congruence | ].
  rewrite I in Ip; injection Ip as <-.
  rewrite E in C.
  replace (List.length body + 4) with (List.length body + List.length delim) in C
    by reflexivity.
  rewrite skipn_app_exact in C.
  pose proof (count_bars_grammar n1 n2 n3); rewrite bar_is in C; lia.
Qed.

Lemma malformed_log_two_warnings_witness :
  (exists prefix,
    (prefix = "invalid ebpf log message: " \/ prefix = "invalid ebpf log message not 3 args: ") /\
    handle_log_message (log_record 1 "f" "x -- a|b") =
      [warnf prefix (msg_of (log_record 1 "f" "x -- a|b"));
       warnf "invalid ebpf log message: " (LogMsg (log_record 1 "f" "x -- a|b"))]) /\
  (exists body n1 n2 n3,
    log_grammar (msg_of (log_record 1 "f" "x -- a|b|c|d")) body n1 n2 n3 /\
    handle_log_message (log_record 1 "f" "x -- a|b|c|d") =
      [ebpf_log LInfo (func_of (log_record 1 "f" "x -- a|b|c|d"))
         (log_record 1 "f" "x -- a|b|c|d")
         (zip_args n1 n2 n3 (log_record 1 "f" "x -- a|b|c|d")) body]).
Proof.
  split.
  - apply (proj1 (malformed_log_two_warnings (log_record 1 "f" "x -- a|b"))).
    right; exists 1; split; [reflexivity | vm_compute; lia].
  - apply (proj2 (malformed_log_two_warnings (log_record 1 "f" "x -- a|b|c|d")) 1);
      [reflexivity | vm_compute; lia].
Defined.

(** C4, as the claim states it, fails: for the missing-delimiter record
    of scenario 5 two WARN entries are written, not one. *)
Lemma missing_delimiter_two_warnings :
  map hl_level (handle_log_message (log_record 1 "f" "no delimiter here")) = [LWarn; LWarn].
Proof. vm_compute; reflexivity. Qed.

Lemma level_of_spec (l : N) :
  match level_of l with Some lvl => [lvl] | None => [] end = spec_log_levels l.
Proof.
  unfold level_of, spec_log_levels.
  split_eqb l; try reflexivity.
  cbn [find fst].
  rewrite (proj2 (N.eqb_neq 0 l)), (proj2 (N.eqb_neq 1 l)),
    (proj2 (N.eqb_neq 2 l)), (proj2 (N.eqb_neq 3 l)) by congruence.
  reflexivity.
Qed.

(** C8 (corrected): a well-formed log record is logged once at debug,
    info, warn or error for level 0, 1, 2, 3, and dropped silently for
    any other level; a malformed one gets exactly the two WARN entries
    of the malformed-message path and no structured entry, whatever its
    level. *)
Theorem log_level_dispatch (m : bpfLogMessage) :
  (forall body n1 n2 n3,
     log_grammar (msg_of m) body n1 n2 n3 ->
     map hl_level (handle_log_message m) = spec_log_levels (lm_Level m) /\
     Forall (fun h => hl_msg h = "ebpf-log") (handle_log_message m)) /\
  ((forall body n1 n2 n3, ~ log_grammar (msg_of m) body n1 n2 n3) ->
   map hl_level (handle_log_message m) = [LWarn; LWarn] /\
   Forall (fun h => hl_msg h <> "ebpf-log") (handle_log_message m)).
Proof.
  split.
  - intros body n1 n2 n3 G.
    rewrite (handle_accepted m body n1 n2 n3 G), <- level_of_spec.
    destruct (level_of (lm_Level m)); simpl; split; repeat constructor.
  - intros NG.
    destruct (handle_rejected m NG) as (prefix & Hp & ->).
    split; [reflexivity | ].
    destruct Hp as [-> | ->];
      (constructor; [simpl; discriminate |
                     constructor; [simpl; discriminate | constructor]]).
Qed.

Lemma log_level_dispatch_witness :
  (exists body n1 n2 n3,
    log_grammar (msg_of (log_record 9 "f" "read done -- fd|len|cpu")) body n1 n2 n3 /\
    map hl_level (handle_log_message (log_record 9 "f" "read done -- fd|len|cpu")) = []) /\
  map hl_level (handle_log_message (log_record 9 "f" "no delimiter here")) = [LWarn; LWarn].
Proof.
  split.
  - destruct (grammar_of_parse (log_record 9 "f" "read done -- fd|len|cpu")
                (list_byte_of_string "read done") _ eq_refl) as (n1 & n2 & n3 & G).
    exists (list_byte_of_string "read done"), n1, n2, n3.
    split; [exact G | ].
    exact (proj1 (proj1 (log_level_dispatch _) _ _ _ _ G)).
  - apply (proj2 (log_level_dispatch (log_record 9 "f" "no delimiter here"))).
    intros body n1 n2 n3 (E & Min & _).
    pose proof (Index_first _ _ _ _ E Min) as I.
    assert (N : Index (msg_of (log_record 9 "f" "no delimiter here")) delim = None)
      by reflexivity.
    congruence.
Defined.

(** C8, as the claim states it, fails: a record of level 9 whose message
    has no [" -- "] still produces two WARN entries. *)
Lemma level9_malformed_not_silent :
  map hl_level (handle_log_message (log_record 9 "f" "no delimiter here")) = [LWarn; LWarn].
Proof. vm_compute; reflexivity. Qed.

(* ================================================================== *)
(** * Further properties of the code *)

Section MoreGoBytes.

Open Scope list_scope.

(** [findEndIndex] stops at the first NUL: the trimmed prefix has no NUL,
    and, unless the whole buffer was scanned, the byte at the returned
    index is NUL. *)
Theorem findEndIndex_first_nul (b : list byte) :
  findEndIndex b <= List.length b /\
  ~ In x00 (firstn (findEndIndex b) b) /\
  (findEndIndex b < List.length b -> nth_error b (findEndIndex b) = Some x00).
Proof.
  induction b as [ | v b (IH1 & IH2 & IH3)]; simpl.
  - split; [lia | split; [tauto | intros; lia]].
  - destruct (Byte.eqb v x00) eqn:V.
    + apply Byte.byte_dec_bl in V; subst v.
      split; [lia | split; [simpl; tauto | intros; reflexivity]].
    + apply Byte.eqb_false in V.
      split; [lia | split; [ | intros; apply IH3; lia]].
      simpl; intros [E | H]; [congruence | tauto].
Qed.

Lemma split_loop_nonempty (k : nat) (s sep : list byte) : split_loop k s sep <> [].
Proof.
  destruct k; simpl; [discriminate | ].
  destruct (Index s sep); discriminate.
Qed.

Lemma split_loop_join (k : nat) (s sep : list byte) :
  join sep (split_loop k s sep) = s.
Proof.
  revert s; induction k as [ | k IH]; intros s; simpl; [reflexivity | ].
  destruct (Index s sep) as [m | ] eqn:I; [ | reflexivity].
  destruct (Index_Some _ _ _ I) as (_ & E & _).
  pose proof (split_loop_nonempty k (skipn (m + List.length sep) s) sep) as NE.
  destruct (split_loop k (skipn (m + List.length sep) s) sep) as [ | p ps] eqn:S;
    [contradiction | ].
  change (join sep (firstn m s :: p :: ps))
    with (firstn m s ++ sep ++ join sep (p :: ps)).
  rewrite <- S, IH; symmetry; exact E.
Qed.

Lemma split_loop_length (k : nat) (s sep : list byte) :
  1 <= List.length (split_loop k s sep) <= S k.
Proof.
  revert s; induction k as [ | k IH]; intros s; simpl; [lia | ].
  destruct (Index s sep); simpl; [specialize (IH (skipn (n + List.length sep) s)) | ]; lia.
Qed.

(** [bytes.SplitN] with [n > 0] and a non-empty separator: joining the
    parts back with the separator gives the input again, and there are
    between one and [n] parts. *)
Theorem SplitN_join_length (s sep : list byte) (n : nat) :
  sep <> [] -> 0 < n ->
  join sep (SplitN s sep n) = s /\
  1 <= List.length (SplitN s sep n) <= n.
Proof.
  intros _ Hn; unfold SplitN.
  destruct n as [ | n]; [lia | ].
  split; [apply split_loop_join | ].
  pose proof (split_loop_length (Nat.min (S n) (List.length s + 1) - 1) s sep); lia.
Qed.

Lemma SplitN_join_length_witness :
  join (list_byte_of_string " -- ") (SplitN (list_byte_of_string "a -- b -- c") (list_byte_of_string " -- ") 2)
    = list_byte_of_string "a -- b -- c" /\
  List.length (SplitN (list_byte_of_string "a -- b -- c") (list_byte_of_string " -- ") 2) = 2.
Proof.
  destruct (SplitN_join_length (list_byte_of_string "a -- b -- c") (list_byte_of_string " -- ") 2)
    as [J _]; [discriminate | lia | ].
  split; [exact J | reflexivity].
Defined.

(** Every part but the last contains no separator: each cut is made at
    the first occurrence left. *)
Theorem SplitN_cut_parts_free (s sep : list byte) (n i : nat) :
  sep <> [] ->
  S i < List.length (SplitN s sep n) ->
  ~ contains (nth i (SplitN s sep n) []) sep.
Proof.
  intros Hsep; unfold SplitN; destruct n as [ | n]; [simpl; lia | ].
  generalize (Nat.min (S n) (List.length s + 1) - 1) as k.
  intros k; revert s i; induction k as [ | k IH]; intros s i Hi; simpl in Hi |- *; [lia | ].
  destruct (Index s sep) as [m | ] eqn:I; simpl in Hi |- *; [ | lia].
  destruct i as [ | i].
  - intros (a & b & Eab).
    destruct (Index_Some _ _ _ I) as (L & E & Min).
    assert (Hs : s = a ++ sep ++ (b ++ skipn m s)).
    { rewrite <- (firstn_skipn m s) at 1; rewrite Eab, !app_assoc; reflexivity. }
    specialize (Min _ _ Hs).
    pose proof (f_equal (@List.length byte) Eab) as LE.
    rewrite !length_app, length_firstn in LE.
    destruct sep; [contradiction | simpl in LE; lia].
  - apply IH; lia.
Qed.

Lemma SplitN_cut_parts_free_witness :
  ~ contains (nth 0 (SplitN (list_byte_of_string "a|b|c") bar 3) []) bar.
Proof.
  apply SplitN_cut_parts_free; [discriminate | vm_compute; lia].
Defined.

(** [bytes.Index] finds nothing exactly when the separator does not occur,
    and otherwise the position of its first occurrence. *)
Theorem Index_first_occurrence (s sep : list byte) :
  (Index s sep = None <-> ~ contains s sep) /\
  (forall m, Index s sep = Some m ->
     (exists b, s = firstn m s ++ sep ++ b) /\
     forall a b, s = a ++ sep ++ b -> m <= List.length a).
Proof.
  split.
  - split.
    + intros N (a & b & E); exact (Index_None _ _ N a b E).
    + intros NC; destruct (Index s sep) as [m | ] eqn:I; [ | reflexivity].
      exfalso; apply NC.
      destruct (Index_Some _ _ _ I) as (_ & E & _).
      exists (firstn m s), (skipn (m + List.length sep) s); exact E.
  - intros m I; destruct (Index_Some _ _ _ I) as (_ & E & Min).
    split; [eexists; exact E | exact Min].
Qed.

End MoreGoBytes.

Section MoreLogPump.

Open Scope list_scope.

(** An accepted message is cut at its first [" -- "]: the returned
    ["log-msg"] text is the part before it and contains no [" -- "]. *)
Theorem parse_accept_body_before_first_delim (input : list byte) (m : bpfLogMessage)
    (args : Args) (logs : list HostLog) (body : list byte) (args' : Args) :
  parseLogMessage input m args = (logs, Some body, args') ->
  (exists rest, input = body ++ delim ++ rest) /\ ~ contains body delim.
Proof.
  intros P.
  destruct (parse_sound _ _ _ _ _ _ P) as (_ & n1 & n2 & n3 & (E & Min & _) & _).
  split; [eexists; exact E | ].
  intros (a & b & Eb).
  assert (E' : input = a ++ delim ++ (b ++ delim ++ n1 ++ bar ++ n2 ++ bar ++ n3)).
  { rewrite E, Eb, <- !app_assoc; reflexivity. }
  specialize (Min _ _ E').
  pose proof (f_equal (@List.length byte) Eb) as L.
  rewrite !length_app, length_delim in L; lia.
Qed.

Lemma parse_accept_body_before_first_delim_witness :
  ~ contains (list_byte_of_string "read done") delim.
Proof.
  exact (proj2 (parse_accept_body_before_first_delim
                  (list_byte_of_string "read done -- fd|len|cpu")
                  (log_record 1 "f" "read done -- fd|len|cpu") args_init _ _ _ eq_refl)).
Defined.

End MoreLogPump.

Lemma to_string_in_table (t : list (N * string)) (n : N) :
  In (SpecTables.to_string t n) (map snd t ++ ["Unknown"])%list.
Proof.
  induction t as [ | [k s] t IH]; simpl; [tauto | ].
  destruct (N.eqb k n); simpl; tauto.
Qed.

Lemma RabbitMQMethod_table (n : N) :
  RabbitMQMethodConversion_String n = SpecTables.to_string SpecTables.amqp_table n.
Proof.
  unfold RabbitMQMethodConversion_String.
  split_eqb n; try reflexivity.
  rewrite to_string_notin; [reflexivity | ].
  simpl; intros H; decompose [or False] H; subst; refute_const.
Qed.

Lemma PostgresMethod_table (n : N) :
  PostgresMethodConversion_String n = SpecTables.to_string SpecTables.postgres_table n.
Proof.
  unfold PostgresMethodConversion_String.
  split_eqb n; try reflexivity.
  rewrite to_string_notin; [reflexivity | ].
  simpl; intros H; decompose [or False] H; subst; refute_const.
Qed.

(** Every decoded event's method is one of the strings of the method
    table of its decoded protocol, or ["Unknown"]. *)
Theorem decoded_method_in_protocol_table (r : bpfL7Event) :
  In (ev_Method (decode_l7 r)) (allowed_methods (ev_Protocol (decode_l7 r))).
Proof.
  destruct r as [fd wt pid st du p me pl ps prc fa tls].
  unfold decode_l7, process_l7_event.
  cbn [snd ev_Method ev_Protocol Protocol Method].
  unfold L7ProtocolConversion_String.
  split_eqb p; cbn -[HTTPMethodConversion_String RabbitMQMethodConversion_String
                      PostgresMethodConversion_String SpecTables.to_string].
  - rewrite HTTPMethod_table; exact (to_string_in_table SpecTables.http_table me).
  - rewrite RabbitMQMethod_table; exact (to_string_in_table SpecTables.amqp_table me).
  - rewrite PostgresMethod_table; exact (to_string_in_table SpecTables.postgres_table me).
  - left; reflexivity.
  - left; reflexivity.
Qed.


Section Pumps.

Open Scope list_scope.

(** One read of the log ring writes at most one structured ["ebpf-log"]
    entry, whatever the read error and lost-sample count: it writes one
    exactly when the sample is present, its message is in the grammar
    ["body -- N1|N2|N3"] and its level is 0..3. *)
Theorem log_read_structured_entry (rec : LogRecord) :
  structured_entries (log_read rec) <= 1 /\
  (structured_entries (log_read rec) = 1 <->
   exists m body n1 n2 n3 lvl,
     RawSample rec = Some m /\ log_grammar (msg_of m) body n1 n2 n3 /\
     level_of (lm_Level m) = Some lvl).
Proof.
  unfold structured_entries, log_read; rewrite !filter_app.
  assert (A : filter (fun h => String.eqb (hl_msg h) "ebpf-log")
                (match ReadErr rec with
                 | Some e => [mk_HostLog LWarn [FStr "error" e] "error reading from perf array"]
                 | None => []
                 end) = []) by (destruct (ReadErr rec); reflexivity).
  assert (B : filter (fun h => String.eqb (hl_msg h) "ebpf-log")
                (if N.eqb (LostSamples rec) 0 then []
                 else [mk_HostLog LDebug []
                         ("lost #" ++ N_to_decimal (LostSamples rec) ++
                          " samples due to ring buffer's full")%string]) = [])
    by (destruct (N.eqb (LostSamples rec) 0); reflexivity).
  rewrite A, B; cbn [app].
  destruct (RawSample rec) as [m | ] eqn:R.
  - destruct (parseLogMessage (msg_of m) m args_init) as [[logs [body | ]] args'] eqn:P.
    + destruct (parse_sound _ _ _ _ _ _ P) as (_ & n1 & n2 & n3 & G & _).
      rewrite (handle_accepted m body n1 n2 n3 G).
      destruct (level_of (lm_Level m)) as [lvl | ] eqn:L; cbn.
      * split; [lia | split; [intros _ | reflexivity]].
        exists m, body, n1, n2, n3, lvl; auto.
      * split; [lia | split; [discriminate | ]].
        intros (m' & b' & k1 & k2 & k3 & lvl & R' & _ & L').
        injection R' as <-; congruence.
    + assert (NG : forall body n1 n2 n3, ~ log_grammar (msg_of m) body n1 n2 n3).
      { intros body n1 n2 n3 G.
        rewrite (parse_complete _ _ _ _ _ m args_init G) in P; discriminate. }
      destruct (handle_rejected m NG) as (prefix & Hp & ->).
      destruct Hp as [-> | ->]; cbn;
        (split; [lia | split; [discriminate | ]]);
        intros (m' & b' & k1 & k2 & k3 & lvl & R' & G' & _);
        injection R' as <-; exact (False_ind _ (NG _ _ _ _ G')).
  - cbn; split; [lia | split; [discriminate | ]].
    intros (m' & b' & k1 & k2 & k3 & lvl & R' & _); discriminate.
Qed.

Lemma log_read_structured_entry_witness :
  structured_entries
    (log_read (mk_LogRecord (Some "EOF") 2
                 (Some (log_record 1 "f" "read done -- fd|len|cpu")))) = 1.
Proof.
  apply (proj2 (log_read_structured_entry _)).
  destruct (grammar_of_parse (log_record 1 "f" "read done -- fd|len|cpu")
              (list_byte_of_string "read done") _ eq_refl) as (n1 & n2 & n3 & G).
  exists (log_record 1 "f" "read done -- fd|len|cpu"), (list_byte_of_string "read done"),
    n1, n2, n3, LInfo.
  split; [reflexivity | split; [exact G | reflexivity]].
Defined.

End Pumps.


Section MoreStartup.

Import Lifecycle.

(** A failure at any of the ten startup steps (the eight tracepoint links
    and the two perf readers) exits the process right after the steps
    that succeeded, releasing nothing. *)
Theorem startup_failure_exits (ok : Resource -> bool) (k : nat) :
  k < List.length startup_steps ->
  (forall i, i < k -> ok (nth i startup_steps Objects) = true) ->
  ok (nth k startup_steps Objects) = false ->
  DeployAndWait ok = (Exited, (map Acquire (firstn k startup_steps) ++ [ProcessExit 1])%list) /\
  released (snd (DeployAndWait ok)) = [].
Proof.
  intros Hk Hpre Hfail.
  assert (E := run_steps_fail ok startup_steps [Objects] k Hk Hpre Hfail).
  unfold DeployAndWait; rewrite E; split; [reflexivity | ].
  unfold released; simpl snd; rewrite flat_map_app.
  generalize (firstn k startup_steps) as l.
  induction l as [ | t ts IH]; simpl; auto.
Qed.

(** The [logs] reader cannot be created; everything else succeeds. *)
Lemma startup_failure_exits_witness :
  DeployAndWait (fun r => match r with PerfReader n => negb (String.eqb n "logs") | _ => true end) =
    (Exited, (map Acquire (firstn 9 startup_steps) ++ [ProcessExit 1])%list).
Proof.
  refine (proj1 (startup_failure_exits _ 9 _ _ _)).
  - simpl; lia.
  - intros i Hi; do 9 (destruct i as [ | i]; [reflexivity | ]); lia.
  - reflexivity.
Defined.

End MoreStartup.

Lemma Index_first_occurrence_witness :
  Index (list_byte_of_string "a -- b -- c") delim = Some 1 /\
  (exists b, list_byte_of_string "a -- b -- c" =
     (firstn 1 (list_byte_of_string "a -- b -- c") ++ delim ++ b)%list).
Proof.
  split; [reflexivity | ].
  exact (proj1 (proj2 (Index_first_occurrence (list_byte_of_string "a -- b -- c") delim) 1 eq_refl)).
Defined.
